(** * Brave Search host allow-list and Brave Ads geo host resolution

    A shallow embedding of

    - [components/brave_search/common/brave_search_utils.cc]
      ([kVettedHosts], [IsAllowedHost], [IsDefaultAPIEnabled]), and
    - the geo URL host exercised by
      [components/brave_ads/.../host/hosts/geo_url_host_unittest.cc].

    [kVettedHosts] is a [base::fixed_flat_set<std::string_view>]: a sorted
    array whose [contains] is a binary search ([lower_bound] followed by one
    comparison).  The array reads of that search are modelled as fallible
    ([nth_error]), so that "the lookup never fails" is a theorem and not a
    property of the encoding. *)

From Equations Require Import Equations.
From Stdlib Require Import List Arith Lia Bool String Ascii NArith.
Import ListNotations.

Local Open Scope string_scope.

(** ** Ordering of [std::string_view]

    [std::less<>] on [std::string_view] is the lexicographic order on
    unsigned bytes, a proper prefix being smaller than its extensions; this
    is [String.ltb] of the standard library. *)

Module StringView.

Definition less (a b : string) : bool := String.ltb a b.

End StringView.

(** ** [base::flat_set]: sorted array with binary search *)

Module FlatSet.
Section Tree.

Variable K : Type.
Variable comp : K -> K -> bool.

(** [std::lower_bound] on the index range [[first, first + count)]:
<<
      while (count > 0) {
        it = first; step = count / 2; advance(it, step);
        if (comp(it[0], value)) { first = ++it; count -= step + 1; }
        else count = step;
      }
      return first;
>>
    [None] stands for a read outside the array. *)
Equations? lower_bound (xs : list K) (key : K) (first count : nat)
  : option nat by wf count lt :=
  lower_bound xs key first 0 := Some first;
  lower_bound xs key first (S n) with nth_error xs (first + S n / 2) => {
    | None := None;
    | Some x with comp x key => {
      | true := lower_bound xs key (S (first + S n / 2)) (S n - (S n / 2 + 1));
      | false := lower_bound xs key first (S n / 2) } }.
Proof.
  all: pose proof (Nat.div_lt (S n) 2 ltac:(lia) ltac:(lia)) as Hstep;
    change (fst (Nat.divmod n 1 0 0)) with (S n / 2) in *.
  - rewrite Nat.add_1_r. lia.
  - exact Hstep.
Qed.

(** [flat_tree::contains]:
<<
      auto lower = lower_bound(key);
      return lower != end() && !comp(key, lower[0]);
>> *)
Definition contains (xs : list K) (key : K) : option bool :=
  match lower_bound xs key 0 (List.length xs) with
  | None => None
  | Some i =>
      if Nat.eqb i (List.length xs) then Some false
      else match nth_error xs i with
           | None => None
           | Some x => Some (negb (comp key x))
           end
  end.

(** The [base::sorted_unique] precondition, as [is_sorted_and_unique]
    checks it: every element is strictly below its successor. *)
Fixpoint is_sorted_and_unique (xs : list K) : bool :=
  match xs with
  | [] => true
  | x :: tl =>
      match tl with
      | [] => true
      | y :: _ => comp x y && is_sorted_and_unique tl
      end
  end.

End Tree.
End FlatSet.

Arguments FlatSet.lower_bound {K} comp xs key first count.
Arguments FlatSet.contains {K} comp xs key.
Arguments FlatSet.is_sorted_and_unique {K} comp xs.

(** ** [GURL]

    [GURL] comes from Chromium's [url/] library ([url/gurl.h]), outside
    this repository.  [IsAllowedHost] receives an already parsed value and
    reads three things from it: [is_valid()], [SchemeIs()] and
    [host_piece()].  The remaining components are kept so that statements
    can vary them.  Parsing and canonicalisation happen before the call and
    are not modelled. *)

Module url.

Definition kHttpScheme : string := "http".
Definition kHttpsScheme : string := "https".

End url.

Record GURL : Type := mkGURL {
  is_valid : bool;
  scheme : string;
  host : string;
  port : string;
  path : string;
  query : string;
  ref : string
}.

(** [GURL::SchemeIs]: the stored scheme equals the given lower-case one. *)
Definition SchemeIs (u : GURL) (lower_ascii_scheme : string) : bool :=
  String.eqb (scheme u) lower_ascii_scheme.

Definition host_piece (u : GURL) : string := host u.

(** ** [brave_search_utils.cc] *)

Definition kVettedHosts : list string :=
  [ "safesearch.brave.com";
    "safesearch.brave.software";
    "safesearch.bravesoftware.com";
    "search-dev-local.brave.com";
    "search.brave.com";
    "search.brave.software";
    "search.bravesoftware.com" ].

Module brave_search.

(** [None] would be a failed lookup (an out-of-range read of the array
    behind [kVettedHosts]). *)
Definition IsAllowedHost (url : GURL) : option bool :=
  if negb (is_valid url) || negb (SchemeIs url url.kHttpsScheme)
  then Some false
  else FlatSet.contains StringView.less kVettedHosts (host_piece url).

(** Process-wide state the file can observe: the feature list. *)
Inductive Feature : Type := kBraveSearchDefaultAPIFeature.

Record World : Type := mkWorld {
  FeatureList_IsEnabled : Feature -> bool
}.

(** A call runs in a world and leaves a world behind. *)
Definition Proc (A : Type) : Type := World -> A * World.

Definition IsEnabled (f : Feature) : Proc bool :=
  fun w => (FeatureList_IsEnabled w f, w).

Definition IsDefaultAPIEnabled : Proc bool :=
  IsEnabled kBraveSearchDefaultAPIFeature.

End brave_search.

Import brave_search.

(** The hosts in the order in which the specification lists them. *)
Definition spec_hosts : list string :=
  [ "search.brave.com";
    "search.brave.software";
    "search.bravesoftware.com";
    "safesearch.brave.com";
    "safesearch.brave.software";
    "safesearch.bravesoftware.com";
    "search-dev-local.brave.com" ].

(** A valid https URL with the given host, path and query. *)
Definition https_url (h p q : string) : GURL :=
  mkGURL true "https" h "" p q "".

(** A vetted host reached over plain http. *)
Definition http_vetted_url : GURL :=
  mkGURL true "http" "search.brave.com" "" "/" "" "".

(** What is left of a string that does not parse. *)
Definition invalid_url : GURL := mkGURL false "" "" "" "" "" "".

(** [ends_with s w]: [w] is [s] preceded by some (possibly empty) string. *)
Fixpoint ends_with (s w : string) : bool :=
  String.eqb s w
  || match w with
     | EmptyString => false
     | String _ w' => ends_with s w'
     end.

(** [has_upper s]: some byte of [s] is an upper-case ASCII letter. *)
Fixpoint has_upper (s : string) : bool :=
  match s with
  | EmptyString => false
  | String c tl =>
      (N.leb 65 (N_of_ascii c) && N.leb (N_of_ascii c) 90) || has_upper tl
  end.

(** ** Geo URL host of Brave Ads *)

Module brave_ads.

(** Modelled from the spec: [mojom::EnvironmentType] is declared in
    [brave_ads.mojom], which is not among the sources; the specification
    lists the three values below. *)
Inductive EnvironmentType : Type := kProduction | kStaging | kDevelopment.

(** Modelled from the spec: the single fatal error kind of the resolver. *)
Inductive Error : Type := ConfigurationError.

Definition Result : Type := (Error + string)%type.

Definition kProductionHost : string := "https://geo.ads.brave.com".
Definition kStagingHost : string := "https://geo.ads.bravesoftware.com".

Section Resolver.

(** The host used under [kDevelopment] is stated neither by the unit test
    nor by the specification; it stays a parameter. *)
Variable kDevelopmentHost : string.

(** Modelled from the spec: [ServiceHostTable], the compiled table of
    [geo_url_host.cc] (not among the sources).  One row per service
    identifier, one entry per environment type in each row. *)
Definition ServiceHostTable : list (string * (EnvironmentType -> string)) :=
  [ ("geo-ads-host",
     fun e => match e with
              | kProduction => kProductionHost
              | kStaging => kStagingHost
              | kDevelopment => kDevelopmentHost
              end) ].

Fixpoint lookup (serviceId : string)
         (table : list (string * (EnvironmentType -> string)))
  : option (EnvironmentType -> string) :=
  match table with
  | [] => None
  | (k, row) :: tl =>
      if String.eqb serviceId k then Some row else lookup serviceId tl
  end.

(** Modelled from the spec: [resolveHost], that is [GetGeoUrlHost] of
    [url_host_util.cc] with [GlobalState::Flags()] behind it (neither is
    among the sources).  The first argument is the process-wide environment
    type, [None] before it is initialised. *)
Definition resolveHost (environment_type : option EnvironmentType)
           (serviceId : string) : Result :=
  match environment_type with
  | None => inl ConfigurationError
  | Some e =>
      match lookup serviceId ServiceHostTable with
      | None => inl ConfigurationError
      | Some row => inr (row e)
      end
  end.

Definition GetGeoUrlHost (environment_type : option EnvironmentType)
  : Result :=
  resolveHost environment_type "geo-ads-host".

Definition registered (serviceId : string) : Prop :=
  In serviceId (map fst ServiceHostTable).

End Resolver.

End brave_ads.

(** * Properties *)

(** ** The order on [std::string_view] is a strict total order *)

Module StringViewFacts.
Import StringView.

Lemma ascii_compare_refl (c : ascii) : Ascii.compare c c = Eq.
Proof. unfold Ascii.compare. apply N.compare_refl. Qed.

Lemma ascii_compare_eq (c d : ascii) : Ascii.compare c d = Eq -> c = d.
Proof.
  unfold Ascii.compare. intros H. apply N.compare_eq in H.
  rewrite <- (ascii_N_embedding c), <- (ascii_N_embedding d).
  now rewrite H.
Qed.

Lemma ascii_compare_lt_trans (c d e : ascii) :
  Ascii.compare c d = Lt -> Ascii.compare d e = Lt -> Ascii.compare c e = Lt.
Proof.
  unfold Ascii.compare. rewrite !N.compare_lt_iff. apply N.lt_trans.
Qed.

Lemma compare_refl (s : string) : String.compare s s = Eq.
Proof.
  induction s as [|c s IH]; simpl; [reflexivity|].
  now rewrite ascii_compare_refl.
Qed.

Lemma compare_lt_trans (a : string) :
  forall b c, String.compare a b = Lt -> String.compare b c = Lt ->
              String.compare a c = Lt.
Proof.
  induction a as [|x a IH]; intros [|y b] [|z c]; simpl; try congruence.
  destruct (Ascii.compare x y) eqn:Hxy; try congruence;
    destruct (Ascii.compare y z) eqn:Hyz; try congruence; intros Hab Hbc.
  - apply ascii_compare_eq in Hxy, Hyz. subst.
    rewrite ascii_compare_refl. eauto.
  - apply ascii_compare_eq in Hxy. subst. now rewrite Hyz.
  - apply ascii_compare_eq in Hyz. subst. now rewrite Hxy.
  - now rewrite (ascii_compare_lt_trans _ _ _ Hxy Hyz).
Qed.

Lemma less_irrefl (a : string) : less a a = false.
Proof. unfold less, String.ltb. now rewrite compare_refl. Qed.

Lemma less_trans (a b c : string) :
  less a b = true -> less b c = true -> less a c = true.
Proof.
  unfold less, String.ltb.
  destruct (String.compare a b) eqn:Hab; try discriminate.
  destruct (String.compare b c) eqn:Hbc; try discriminate.
  now rewrite (compare_lt_trans _ _ _ Hab Hbc).
Qed.

(** Two strings neither of which is below the other are the same string. *)
Lemma less_tricho (a b : string) :
  less a b = false -> less b a = false -> a = b.
Proof.
  unfold less, String.ltb. rewrite (String.compare_antisym a b).
  destruct (String.compare b a) eqn:H; simpl; try discriminate.
  intros _ _. symmetry. now apply String.compare_eq_iff.
Qed.

End StringViewFacts.

(** ** Binary search in a flat set *)

Module FlatSetFacts.
Import FlatSet.

Section Search.

Context {K : Type} (comp : K -> K -> bool).

Lemma nth_error_lt (xs : list K) (j : nat) (x : K) :
  nth_error xs j = Some x -> j < List.length xs.
Proof. intros H. apply nth_error_Some. congruence. Qed.

(** The search stays inside the array, whatever the order of its elements:
    every read hits, and the result lies in the searched range. *)
Lemma lower_bound_total (xs : list K) (key : K) (first count : nat) :
  first + count <= List.length xs ->
  exists i, lower_bound comp xs key first count = Some i
            /\ first <= i <= first + count.
Proof.
  funelim (lower_bound comp xs key first count); intros Hlen.
  - exists first. split; [reflexivity | lia].
  - exfalso.
    assert (Hm : first + S n / 2 < List.length xs).
    { pose proof (Nat.div_lt (S n) 2 ltac:(lia) ltac:(lia)). lia. }
    apply nth_error_None in Heq. lia.
  - pose proof (Nat.div_lt (S n) 2 ltac:(lia) ltac:(lia)) as Hstep.
    destruct H as [i [Hi Hr]]; [lia|].
    exists i. split; [congruence | lia].
  - pose proof (Nat.div_lt (S n) 2 ltac:(lia) ltac:(lia)) as Hstep.
    destruct H as [i [Hi Hr]]; [lia|].
    exists i. split; [congruence | lia].
Qed.

(** [contains] never fails: it answers on every array and every key. *)
Lemma contains_total (xs : list K) (key : K) :
  exists b, contains comp xs key = Some b.
Proof.
  unfold contains.
  destruct (lower_bound_total xs key 0 (List.length xs)) as [i [Hi Hr]];
    [lia|].
  rewrite Hi. destruct (Nat.eqb i (List.length xs)) eqn:He; [eauto|].
  apply Nat.eqb_neq in He.
  destruct (nth_error xs i) eqn:Hn; [eauto|].
  apply nth_error_None in Hn. lia.
Qed.

(** From here on [comp] is a strict total order, as [std::less<>] is. *)
Hypothesis comp_irrefl : forall a, comp a a = false.
Hypothesis comp_trans :
  forall a b c, comp a b = true -> comp b c = true -> comp a c = true.
Hypothesis comp_tricho :
  forall a b, comp a b = false -> comp b a = false -> a = b.

Lemma sorted_head (x : K) (tl : list K) :
  is_sorted_and_unique comp (x :: tl) = true ->
  forall y, In y tl -> comp x y = true.
Proof.
  revert x. induction tl as [|z tl IH]; intros x Hs y Hy; [easy|].
  cbn [is_sorted_and_unique] in Hs. apply andb_prop in Hs as [Hxz Hs].
  destruct Hy as [->|Hy]; [exact Hxz|].
  apply (comp_trans x z y Hxz). now apply IH.
Qed.

Lemma sorted_tail (x : K) (tl : list K) :
  is_sorted_and_unique comp (x :: tl) = true ->
  is_sorted_and_unique comp tl = true.
Proof.
  destruct tl as [|z tl]; [reflexivity|].
  cbn [is_sorted_and_unique]. intros Hs. now apply andb_prop in Hs.
Qed.

(** In a sorted array an earlier element is below a later one. *)
Lemma sorted_nth (xs : list K) :
  is_sorted_and_unique comp xs = true ->
  forall i j x y, i < j ->
    nth_error xs i = Some x -> nth_error xs j = Some y -> comp x y = true.
Proof.
  induction xs as [|z xs IH]; intros Hs i j x y Hij Hi Hj.
  - now destruct i.
  - destruct j as [|j]; [lia|]. cbn in Hj. destruct i as [|i].
    + cbn in Hi. injection Hi as ->.
      apply (sorted_head _ _ Hs). eapply nth_error_In, Hj.
    + cbn in Hi. apply (IH (sorted_tail _ _ Hs) i j); [lia|easy|easy].
Qed.

(** The loop invariant of [lower_bound]: everything left of the range is
    below the key, nothing right of it is; on exit the range is empty. *)
Lemma lower_bound_sorted (xs : list K) (key : K) (first count : nat) :
  is_sorted_and_unique comp xs = true ->
  forall i, lower_bound comp xs key first count = Some i ->
  (forall j x, j < first -> nth_error xs j = Some x -> comp x key = true) ->
  (forall j x, first + count <= j -> nth_error xs j = Some x ->
               comp x key = false) ->
  (forall j x, j < i -> nth_error xs j = Some x -> comp x key = true)
  /\ (forall j x, i <= j -> nth_error xs j = Some x -> comp x key = false).
Proof.
  intros Hs.
  funelim (lower_bound comp xs key first count); intros i Hi Hlo Hhi.
  - injection Hi as <-. split; [exact Hlo|].
    intros j y Hj. apply Hhi. lia.
  - discriminate.
  - pose proof (Nat.div_lt (S n) 2 ltac:(lia) ltac:(lia)) as Hstep.
    apply (H xs key _ _ Hs eq_refl eq_refl i Hi).
    + intros j y Hj Hy.
      destruct (Nat.eq_dec j (first + S n / 2)) as [->|Hne].
      * congruence.
      * apply (comp_trans y x key); [|exact Heq].
        apply (sorted_nth xs Hs j (first + S n / 2)); [lia|easy|easy].
    + intros j y Hj. apply Hhi. lia.
  - pose proof (Nat.div_lt (S n) 2 ltac:(lia) ltac:(lia)) as Hstep.
    apply (H xs key _ _ Hs eq_refl eq_refl i Hi); [exact Hlo|].
    intros j y Hj Hy.
    destruct (Nat.eq_dec j (first + S n / 2)) as [->|Hne].
    + congruence.
    + destruct (comp y key) eqn:Hyk; [|reflexivity].
      assert (Hxy : comp x y = true).
      { apply (sorted_nth xs Hs (first + S n / 2) j); [lia|easy|easy]. }
      rewrite (comp_trans x y key Hxy Hyk) in Heq. discriminate.
Qed.

(** On a sorted array [contains] decides membership. *)
Lemma contains_In (xs : list K) (key : K) :
  is_sorted_and_unique comp xs = true ->
  contains comp xs key = Some true <-> In key xs.
Proof.
  intros Hs. unfold contains.
  destruct (lower_bound_total xs key 0 (List.length xs)) as [i [Hi Hr]];
    [lia|].
  rewrite Hi.
  destruct (lower_bound_sorted xs key 0 (List.length xs) Hs i Hi)
    as [Hlo Hhi].
  { intros j x Hj. lia. }
  { intros j x Hj Hx. apply nth_error_lt in Hx. lia. }
  destruct (Nat.eqb i (List.length xs)) eqn:He.
  - apply Nat.eqb_eq in He. split; [discriminate|].
    intros Hin. apply In_nth_error in Hin as [j Hj].
    pose proof (nth_error_lt _ _ _ Hj) as Hlt.
    pose proof (Hlo j key ltac:(lia) Hj) as Hkk.
    rewrite comp_irrefl in Hkk. discriminate.
  - apply Nat.eqb_neq in He.
    destruct (nth_error xs i) as [x|] eqn:Hx;
      [|apply nth_error_None in Hx; lia].
    pose proof (Hhi i x (Nat.le_refl i) Hx) as Hxk.
    split.
    + intros Hc. injection Hc as Hc. apply negb_true_iff in Hc.
      rewrite (comp_tricho key x Hc Hxk). eapply nth_error_In, Hx.
    + intros Hin. apply In_nth_error in Hin as [j Hj].
      assert (Hij : i <= j).
      { destruct (Nat.le_gt_cases i j) as [|Hlt]; [easy|].
        pose proof (Hlo j key Hlt Hj) as Hkk.
        rewrite comp_irrefl in Hkk. discriminate. }
      destruct (Nat.eq_dec i j) as [->|Hne].
      * rewrite Hx in Hj. injection Hj as ->. now rewrite comp_irrefl.
      * pose proof (sorted_nth xs Hs i j x key ltac:(lia) Hx Hj) as Hlt.
        rewrite Hlt in Hxk. discriminate.
Qed.

(** A key outside a sorted array is answered with [false]. *)
Lemma contains_not_In (xs : list K) (key : K) :
  is_sorted_and_unique comp xs = true ->
  contains comp xs key = Some false <-> ~ In key xs.
Proof.
  intros Hs. pose proof (contains_In xs key Hs) as Hin.
  destruct (contains_total xs key) as [[|] Hb]; rewrite Hb in *.
  - split; [discriminate|]. intros Hn. exfalso. apply Hn, Hin. reflexivity.
  - split; [|reflexivity]. intros _ Hk. apply Hin in Hk. discriminate.
Qed.

End Search.
End FlatSetFacts.

(** ** Small facts about strings *)

Module StringFacts.

Lemma prefix_app (h t : string) : String.prefix h (h ++ t) = true.
Proof.
  induction h as [|c h IH]; simpl; [now destruct t|].
  destruct (ascii_dec c c); [exact IH | contradiction].
Qed.

Lemma ends_with_app (t s : string) : ends_with s (t ++ s) = true.
Proof.
  induction t as [|c t IH]; cbn [append ends_with].
  - destruct s; cbn [ends_with]; rewrite String.eqb_refl; reflexivity.
  - rewrite IH. apply orb_true_r.
Qed.

Lemma app_eq_self (h t : string) : h ++ t = h -> t = "".
Proof.
  induction h as [|c h IH]; simpl; [easy|].
  intros H. injection H as H. auto.
Qed.

End StringFacts.

(** ** The vetted host set *)

Module VettedHosts.
Import StringView StringViewFacts FlatSetFacts StringFacts.

(** Every literal is written in lower case, as a canonical host is. *)
Lemma no_upper (h : string) : In h kVettedHosts -> has_upper h = false.
Proof.
  assert (Hall : forallb (fun a => negb (has_upper a)) kVettedHosts = true)
    by reflexivity.
  intros Hh. rewrite forallb_forall in Hall.
  now apply negb_true_iff, Hall.
Qed.

(** The literal array satisfies the [base::sorted_unique] precondition. *)
Lemma sorted_unique :
  FlatSet.is_sorted_and_unique less kVettedHosts = true.
Proof. reflexivity. Qed.

Lemma contains_true_iff (h : string) :
  FlatSet.contains less kVettedHosts h = Some true <-> In h kVettedHosts.
Proof.
  apply (contains_In less less_irrefl less_trans less_tricho).
  exact sorted_unique.
Qed.

Lemma contains_false_iff (h : string) :
  FlatSet.contains less kVettedHosts h = Some false <-> ~ In h kVettedHosts.
Proof.
  apply (contains_not_In less less_irrefl less_trans less_tricho).
  exact sorted_unique.
Qed.

(** The array holds the seven hosts of the specification, in another
    order. *)
Lemma In_spec_hosts (h : string) : In h kVettedHosts <-> In h spec_hosts.
Proof. unfold kVettedHosts, spec_hosts. simpl. tauto. Qed.

(** No vetted host is a proper prefix of another one ... *)
Lemma no_proper_prefix (h h' : string) :
  In h kVettedHosts -> In h' kVettedHosts ->
  String.prefix h h' = true -> h = h'.
Proof.
  assert (Hall : forallb (fun a => forallb (fun b =>
            String.eqb a b || negb (String.prefix a b)) kVettedHosts)
          kVettedHosts = true) by reflexivity.
  intros Hh Hh' Hp.
  rewrite forallb_forall in Hall. specialize (Hall h Hh).
  rewrite forallb_forall in Hall. specialize (Hall h' Hh').
  rewrite Hp in Hall. rewrite orb_false_r in Hall.
  now apply String.eqb_eq.
Qed.

(** ... and none is a subdomain of another one. *)
Lemma no_subdomain (h h' : string) :
  In h kVettedHosts -> In h' kVettedHosts ->
  ends_with ("." ++ h) h' = false.
Proof.
  assert (Hall : forallb (fun a => forallb (fun b =>
            negb (ends_with ("." ++ a) b)) kVettedHosts)
          kVettedHosts = true) by reflexivity.
  intros Hh Hh'.
  rewrite forallb_forall in Hall. specialize (Hall h Hh).
  rewrite forallb_forall in Hall. specialize (Hall h' Hh').
  now apply negb_true_iff.
Qed.

End VettedHosts.

(** ** [IsAllowedHost] *)

Lemma IsAllowedHost_unfold (u : GURL) :
  IsAllowedHost u =
  if is_valid u && String.eqb (scheme u) "https"
  then FlatSet.contains StringView.less kVettedHosts (host u)
  else Some false.
Proof.
  unfold IsAllowedHost, SchemeIs, host_piece, url.kHttpsScheme.
  destruct (is_valid u), (String.eqb (scheme u) "https"); reflexivity.
Qed.

Lemma IsAllowedHost_true_iff (u : GURL) :
  IsAllowedHost u = Some true <->
  is_valid u = true /\ scheme u = "https" /\ In (host u) kVettedHosts.
Proof.
  rewrite IsAllowedHost_unfold.
  destruct (is_valid u); cbn [andb].
  - destruct (String.eqb_spec (scheme u) "https") as [Hs|Hs].
    + rewrite VettedHosts.contains_true_iff. tauto.
    + split; [discriminate | tauto].
  - split; [discriminate | intros [H _]; discriminate].
Qed.

Lemma IsAllowedHost_returns (u : GURL) :
  exists b, IsAllowedHost u = Some b.
Proof.
  rewrite IsAllowedHost_unfold.
  destruct (is_valid u && String.eqb (scheme u) "https"); [|eauto].
  apply FlatSetFacts.contains_total.
Qed.

Lemma IsAllowedHost_false_iff (u : GURL) :
  IsAllowedHost u = Some false <->
  ~ (is_valid u = true /\ scheme u = "https" /\ In (host u) kVettedHosts).
Proof.
  rewrite <- IsAllowedHost_true_iff.
  destruct (IsAllowedHost_returns u) as [[|] Hb]; rewrite Hb.
  - split; [discriminate | intros H; now elim H].
  - split; [intros _ H; discriminate | reflexivity].
Qed.

(** C1.  [IsAllowedHost] answers [true] exactly for a valid URL whose scheme
    is [https] and whose host is one of the seven literal hosts of the
    specification, and answers [false] for every other URL; it answers in
    both cases. *)
Theorem IsAllowedHost_exactly_vetted (u : GURL) :
  (IsAllowedHost u = Some true <->
   is_valid u = true /\ scheme u = "https" /\
   (host u = "search.brave.com" \/
    host u = "search.brave.software" \/
    host u = "search.bravesoftware.com" \/
    host u = "safesearch.brave.com" \/
    host u = "safesearch.brave.software" \/
    host u = "safesearch.bravesoftware.com" \/
    host u = "search-dev-local.brave.com"))
  /\ (IsAllowedHost u = Some false <-> IsAllowedHost u <> Some true).
Proof.
  split.
  - rewrite IsAllowedHost_true_iff, VettedHosts.In_spec_hosts.
    unfold spec_hosts. simpl.
    intuition (subst; auto).
  - destruct (IsAllowedHost_returns u) as [[|] Hb]; rewrite Hb.
    + split; [discriminate | intros H; now elim H].
    + split; [discriminate | reflexivity].
Qed.

(** C2.  A URL whose scheme is not [https] is rejected, whatever its host. *)
Theorem IsAllowedHost_requires_https (u : GURL) :
  scheme u <> "https" -> IsAllowedHost u = Some false.
Proof.
  intros Hs. apply IsAllowedHost_false_iff. tauto.
Qed.

Lemma IsAllowedHost_requires_https_witness :
  In (host http_vetted_url) kVettedHosts
  /\ IsAllowedHost http_vetted_url = Some false.
Proof.
  split.
  - simpl. tauto.
  - apply (IsAllowedHost_requires_https http_vetted_url). discriminate.
Defined.

(** C3.  Only the host component is tested, and it is tested for equality
    with a member of the set: port, path, query and fragment do not change
    the answer; an accepted host is literally in the set; a vetted host with
    anything appended, or with a label put in front, is rejected. *)
Theorem IsAllowedHost_host_only :
  (forall v s h p1 a1 q1 r1 p2 a2 q2 r2,
      IsAllowedHost (mkGURL v s h p1 a1 q1 r1)
      = IsAllowedHost (mkGURL v s h p2 a2 q2 r2))
  /\ IsAllowedHost (https_url "search.brave.com" "/search" "q=x") = Some true
  /\ IsAllowedHost (https_url "search.brave.com.attacker.net" "/" "")
     = Some false
  /\ (forall u, IsAllowedHost u = Some true -> In (host u) kVettedHosts)
  /\ (forall u h t, In h kVettedHosts -> t <> "" -> host u = h ++ t ->
                    IsAllowedHost u = Some false)
  /\ (forall u h t, In h kVettedHosts -> host u = t ++ "." ++ h ->
                    IsAllowedHost u = Some false).
Proof.
  repeat split.
  - intros u Hu. now apply IsAllowedHost_true_iff in Hu.
  - intros u h t Hh Ht Hu. apply IsAllowedHost_false_iff.
    intros [_ [_ Hin]]. apply Ht, (StringFacts.app_eq_self h).
    symmetry. rewrite <- Hu.
    apply (VettedHosts.no_proper_prefix h (host u) Hh Hin).
    rewrite Hu. apply StringFacts.prefix_app.
  - intros u h t Hh Hu. apply IsAllowedHost_false_iff.
    intros [_ [_ Hin]].
    pose proof (VettedHosts.no_subdomain h (host u) Hh Hin) as Hn.
    rewrite Hu, StringFacts.ends_with_app in Hn. discriminate.
Qed.

Lemma IsAllowedHost_host_only_witness :
  IsAllowedHost (https_url "search.brave.com.attacker.net" "/" "")
  = Some false
  /\ IsAllowedHost (https_url "api.search.brave.com" "/" "") = Some false.
Proof.
  destruct IsAllowedHost_host_only as (_ & _ & _ & _ & Happ & Hsub).
  split.
  - apply (Happ _ "search.brave.com" ".attacker.net");
      [simpl; tauto | discriminate | reflexivity].
  - apply (Hsub _ "search.brave.com" "api"); [simpl; tauto | reflexivity].
Defined.

(** C4.  [IsAllowedHost] answers on every URL, and on an invalid one the
    answer is [false]. *)
Theorem IsAllowedHost_total (u : GURL) :
  (exists b, IsAllowedHost u = Some b)
  /\ (is_valid u = false -> IsAllowedHost u = Some false).
Proof.
  split; [apply IsAllowedHost_returns|].
  intros Hv. apply IsAllowedHost_false_iff. intros [H _]. congruence.
Qed.

Lemma IsAllowedHost_total_witness : IsAllowedHost invalid_url = Some false.
Proof.
  apply (proj2 (IsAllowedHost_total invalid_url)). reflexivity.
Defined.

(** [IsDefaultAPIEnabled] follows the feature list: its answer differs
    between a world where the feature is on and one where it is off. *)
Lemma IsDefaultAPIEnabled_reads_world :
  exists w1 w2,
    fst (IsDefaultAPIEnabled w1) <> fst (IsDefaultAPIEnabled w2).
Proof.
  exists (mkWorld (fun _ => true)), (mkWorld (fun _ => false)).
  discriminate.
Qed.

Example scenario_http :
  IsAllowedHost http_vetted_url = Some false.
Proof. reflexivity. Qed.

Example lower_bound_ex :
  FlatSet.lower_bound Nat.ltb [1; 3; 5; 7] 5 0 4 = Some 2.
Proof. reflexivity. Qed.

(** ** Geo URL host *)

Module GeoUrlHost.
Import brave_ads.

Lemma lookup_registered (dev serviceId : string) :
  lookup serviceId (ServiceHostTable dev) <> None <->
  registered dev serviceId.
Proof.
  unfold registered, ServiceHostTable. cbn [lookup map fst In].
  destruct (String.eqb_spec serviceId "geo-ads-host") as [->|Hne].
  - split; [auto | discriminate].
  - split; [congruence | intros [H|[]]; congruence].
Qed.

(** C5.  Under [kProduction] the geo host is [https://geo.ads.brave.com],
    under [kStaging] it is [https://geo.ads.bravesoftware.com]; these are
    the two expectations of the unit test. *)
Theorem resolveHost_geo_production_staging (dev : string) :
  resolveHost dev (Some kProduction) "geo-ads-host"
  = inr "https://geo.ads.brave.com"
  /\ resolveHost dev (Some kStaging) "geo-ads-host"
     = inr "https://geo.ads.bravesoftware.com".
Proof. split; reflexivity. Qed.

(** C7.  In every environment, an identifier without a row in the table is
    answered with [ConfigurationError] and with no host. *)
Theorem resolveHost_unregistered
        (dev : string) (e : EnvironmentType) (serviceId : string) :
  ~ registered dev serviceId ->
  resolveHost dev (Some e) serviceId = inl ConfigurationError
  /\ forall h, resolveHost dev (Some e) serviceId <> inr h.
Proof.
  intros Hn. rewrite <- lookup_registered in Hn.
  unfold resolveHost.
  destruct (lookup serviceId (ServiceHostTable dev)); [now elim Hn|].
  split; [reflexivity | discriminate].
Qed.

Lemma resolveHost_unregistered_witness :
  resolveHost "" (Some kStaging) "news-host" = inl ConfigurationError.
Proof.
  apply (resolveHost_unregistered "" kStaging "news-host").
  unfold registered. simpl. intros [H|[]]. discriminate.
Defined.

(** C8.  Before the environment type is initialised every request fails
    with [ConfigurationError]; in particular the answer is not the one
    given under [kProduction]. *)
Theorem resolveHost_uninitialized (dev serviceId : string) :
  resolveHost dev None serviceId = inl ConfigurationError
  /\ resolveHost dev None serviceId
     <> resolveHost dev (Some kProduction) "geo-ads-host".
Proof. split; [reflexivity | discriminate]. Qed.

(** The two entries that the sources state are distinct, non-empty and
    start with [https://]. *)
Lemma geo_known_entries (dev : string) :
  resolveHost dev (Some kProduction) "geo-ads-host"
  <> resolveHost dev (Some kStaging) "geo-ads-host"
  /\ (forall e h, e <> kDevelopment ->
        resolveHost dev (Some e) "geo-ads-host" = inr h ->
        String.prefix "https://" h = true /\ h <> "").
Proof.
  split; [discriminate|].
  intros [| |] h He Hr; try (now elim He);
    injection Hr as <-; split; (reflexivity || discriminate).
Qed.

(** Under [kDevelopment] the answer is whatever the table holds there. *)
Lemma geo_development_entry (dev : string) :
  resolveHost dev (Some kDevelopment) "geo-ads-host" = inr dev.
Proof. reflexivity. Qed.

(** The unit test [BraveAdsGeoUrlHostTest]. *)
Example GetProductionUrlHost (dev : string) :
  GetGeoUrlHost dev (Some kProduction) = inr "https://geo.ads.brave.com".
Proof. reflexivity. Qed.

Example GetStagingUrlHost (dev : string) :
  GetGeoUrlHost dev (Some kStaging) = inr "https://geo.ads.bravesoftware.com".
Proof. reflexivity. Qed.

End GeoUrlHost.

(** ** More on the binary search behind [fixed_flat_set] *)

Module FlatSetExtra.
Import FlatSet StringView StringViewFacts FlatSetFacts.

Section AnyOrder.

Context {K : Type} (comp : K -> K -> bool).

(** Where the loop stops: at the end of the range it was given, or on an
    element that it compared with the key and found not below it.  No
    assumption on the order of the array is needed. *)
Lemma lower_bound_stop (xs : list K) (key : K) (first count : nat) :
  forall i, lower_bound comp xs key first count = Some i ->
  i = first + count
  \/ exists x, nth_error xs i = Some x /\ comp x key = false.
Proof.
  funelim (lower_bound comp xs key first count); intros i Hi.
  - injection Hi as <-. left. lia.
  - discriminate.
  - pose proof (Nat.div_lt (S n) 2 ltac:(lia) ltac:(lia)) as Hstep.
    destruct (H i Hi) as [->|Hx]; [left; lia | right; exact Hx].
  - destruct (H i Hi) as [->|Hx]; [|right; exact Hx].
    right. exists x. split; assumption.
Qed.

(** A partitioned list: [p] holds before index [i] and fails from [i] on.
    Then [i] is the number of elements that satisfy [p]. *)
Lemma partition_count (p : K -> bool) (xs : list K) :
  forall i, i <= List.length xs ->
  (forall j x, j < i -> nth_error xs j = Some x -> p x = true) ->
  (forall j x, i <= j -> nth_error xs j = Some x -> p x = false) ->
  List.length (filter p xs) = i.
Proof.
  induction xs as [|a xs IH]; intros i Hi Hlo Hhi.
  - simpl in *. lia.
  - destruct i as [|i]; cbn [filter].
    + rewrite (Hhi 0 a (Nat.le_refl 0) eq_refl).
      apply IH; [lia | intros j x Hj; lia |].
      intros j x _ Hx. apply (Hhi (S j) x); [lia | exact Hx].
    + rewrite (Hlo 0 a ltac:(lia) eq_refl). cbn [List.length]. f_equal.
      apply IH; [simpl in Hi; lia | |].
      * intros j x Hj Hx. apply (Hlo (S j) x); [lia | exact Hx].
      * intros j x Hj Hx. apply (Hhi (S j) x); [lia | exact Hx].
Qed.

End AnyOrder.

(** X3.  On any range that lies inside the array, and for any comparator,
    [lower_bound] reads no element outside the array and returns an index
    of the range or its end. *)
Theorem lower_bound_in_bounds
        (K : Type) (comp : K -> K -> bool) (xs : list K) (key : K)
        (first count : nat) :
  first + count <= List.length xs ->
  exists i, lower_bound comp xs key first count = Some i
            /\ first <= i <= first + count.
Proof. apply lower_bound_total. Qed.

Lemma lower_bound_in_bounds_witness :
  exists i, lower_bound Nat.ltb [5; 1; 4; 2] 3 1 2 = Some i /\ 1 <= i <= 1 + 2.
Proof.
  apply (lower_bound_in_bounds nat Nat.ltb [5; 1; 4; 2] 3 1 2). simpl. lia.
Defined.

(** X1.  [contains] never answers [true] for a key that is not in the
    array, even when the array is not sorted: an unsorted array can only
    make it miss members. *)
Theorem contains_sound_any_array (xs : list string) (key : string) :
  contains less xs key = Some true -> In key xs.
Proof.
  unfold contains.
  destruct (lower_bound less xs key 0 (List.length xs)) as [i|] eqn:Hi;
    [|discriminate].
  destruct (Nat.eqb i (List.length xs)) eqn:He; [discriminate|].
  apply Nat.eqb_neq in He.
  destruct (nth_error xs i) as [x|] eqn:Hx; [|discriminate].
  intros Hc. injection Hc as Hc. apply negb_true_iff in Hc.
  destruct (lower_bound_stop less xs key 0 (List.length xs) i Hi)
    as [->|[y [Hy Hyk]]]; [now elim He|].
  rewrite Hx in Hy. injection Hy as <-.
  rewrite (less_tricho key x Hc Hyk). eapply nth_error_In, Hx.
Qed.

Lemma contains_sound_any_array_witness :
  FlatSet.is_sorted_and_unique less ["b"; "a"; "c"] = false
  /\ In "c" ["b"; "a"; "c"].
Proof.
  split; [reflexivity|].
  apply (contains_sound_any_array ["b"; "a"; "c"] "c"). reflexivity.
Defined.

(** X2.  On an array that satisfies [base::sorted_unique], [contains]
    decides membership: [true] for the members, [false] for everything
    else. *)
Theorem contains_decides_sorted (xs : list string) (key : string) :
  is_sorted_and_unique less xs = true ->
  (contains less xs key = Some true <-> In key xs)
  /\ (contains less xs key = Some false <-> ~ In key xs).
Proof.
  intros Hs. split.
  - now apply (contains_In less less_irrefl less_trans less_tricho).
  - now apply (contains_not_In less less_irrefl less_trans less_tricho).
Qed.

Lemma contains_decides_sorted_witness :
  contains less ["a.example"; "b.example"] "b.example" = Some true
  /\ contains less ["a.example"; "b.example"] "c.example" = Some false.
Proof.
  pose proof (contains_decides_sorted ["a.example"; "b.example"]) as H.
  split.
  - apply (H "b.example"); [reflexivity | simpl; tauto].
  - apply (H "c.example"); [reflexivity|].
    simpl. intros [E|[E|[]]]; discriminate.
Defined.

(** X4.  On a sorted array [lower_bound] returns the partition point: its
    result is the number of elements strictly below the key. *)
Theorem lower_bound_partition_point (xs : list string) (key : string) :
  is_sorted_and_unique less xs = true ->
  lower_bound less xs key 0 (List.length xs)
  = Some (List.length (filter (fun x => less x key) xs)).
Proof.
  intros Hs.
  destruct (lower_bound_total less xs key 0 (List.length xs))
    as [i [Hi Hr]]; [lia|].
  rewrite Hi. f_equal. symmetry.
  destruct (lower_bound_sorted less less_trans
              xs key 0 (List.length xs) Hs i Hi) as [Hlo Hhi].
  { intros j x Hj. lia. }
  { intros j x Hj Hx. apply nth_error_lt in Hx. lia. }
  apply (partition_count (fun x => less x key) xs i); [lia | exact Hlo |].
  exact Hhi.
Qed.

Lemma lower_bound_partition_point_witness :
  lower_bound less kVettedHosts "search.aaa" 0 7 = Some 4.
Proof.
  apply (lower_bound_partition_point kVettedHosts "search.aaa"). reflexivity.
Defined.

(** X5.  An array that passes [is_sorted_and_unique] holds no element
    twice. *)
Theorem sorted_unique_NoDup (xs : list string) :
  is_sorted_and_unique less xs = true -> NoDup xs.
Proof.
  induction xs as [|x xs IH]; intros Hs; constructor.
  - intros Hin.
    pose proof (sorted_head less less_trans x xs Hs x Hin) as Hxx.
    rewrite less_irrefl in Hxx. discriminate.
  - apply IH. exact (sorted_tail less x xs Hs).
Qed.

Lemma sorted_unique_NoDup_witness : NoDup kVettedHosts.
Proof. apply (sorted_unique_NoDup kVettedHosts). reflexivity. Defined.

End FlatSetExtra.

(** ** More on the allow-list *)

Module AllowListExtra.
Import StringView.

(** X6.  The literal handed to [MakeFixedFlatSet] keeps the promise of its
    [base::sorted_unique] tag: the seven hosts are written in strictly
    increasing [std::string_view] order. *)
Theorem kVettedHosts_sorted_unique :
  FlatSet.is_sorted_and_unique less kVettedHosts = true
  /\ List.length kVettedHosts = 7.
Proof. split; reflexivity. Qed.

(** X8.  An accepted URL has a non-empty host that lies under one of the
    three domains [brave.com], [brave.software] and [bravesoftware.com]. *)
Theorem IsAllowedHost_brave_domain (u : GURL) :
  IsAllowedHost u = Some true ->
  host u <> ""
  /\ (ends_with ".brave.com" (host u) = true
      \/ ends_with ".brave.software" (host u) = true
      \/ ends_with ".bravesoftware.com" (host u) = true).
Proof.
  intros Hu. apply IsAllowedHost_true_iff in Hu as [_ [_ Hin]].
  assert (Hall : forallb (fun h =>
            negb (String.eqb h "")
            && (ends_with ".brave.com" h
                || ends_with ".brave.software" h
                || ends_with ".bravesoftware.com" h)) kVettedHosts = true)
    by reflexivity.
  rewrite forallb_forall in Hall. specialize (Hall _ Hin).
  apply andb_prop in Hall as [Hne Hd]. split.
  - intros He. rewrite He in Hne. discriminate.
  - apply orb_prop in Hd as [Hd|Hd]; [|tauto].
    apply orb_prop in Hd. tauto.
Qed.

Lemma IsAllowedHost_brave_domain_witness :
  ends_with ".brave.com" "safesearch.brave.com" = true
  \/ ends_with ".brave.software" "safesearch.brave.com" = true
  \/ ends_with ".bravesoftware.com" "safesearch.brave.com" = true.
Proof.
  apply (IsAllowedHost_brave_domain
           (https_url "safesearch.brave.com" "/search" "q=x")).
  reflexivity.
Defined.

End AllowListExtra.
